(** * Session controller of video_player_windows (windows/video_player.cpp)

    Shallow embedding of [VideoPlayer]: the C++ object is a record, every
    member function is a function from the object to the object, and the
    observable effects (calls into the media engine wrapper and events
    handed to [_eventSink->Success]) are appended, in program order, to one
    trace kept in the object. *)

From Stdlib Require Import ZArith List Bool Lia.
Import ListNotations.
Open Scope Z_scope.

Module VideoPlayerWindows.

(** ** Machine integers *)

(** [static_cast<uint32_t>] of an unsigned ([size_t]) value. *)
Definition uint32 (x : Z) : Z := x mod 2 ^ 32.

(** Two's complement casts [(int32_t)] and [(int64_t)]. *)
Definition int32 (x : Z) : Z := (x + 2 ^ 31) mod 2 ^ 32 - 2 ^ 31.
Definition int64 (x : Z) : Z := (x + 2 ^ 63) mod 2 ^ 64 - 2 ^ 63.

Arguments uint32 : simpl never.
Arguments int32 : simpl never.
Arguments int64 : simpl never.

(** ** The media engine wrapper *)

(** [media::MediaEngineWrapper::BufferingState]. *)
Inductive BufferingState : Type :=
| HAVE_NOTHING
| HAVE_ENOUGH.

(** The engine operations the controller issues. *)
Inductive EngineCall : Type :=
| SeekTo_call (t : Z)
| Pause_call
| StartPlayingFrom_call (t : Z)
| SetLooping_call (b : bool)
| SetVolume_call (v : Z)
| SetPlaybackRate_call (r : Z)
| UpdateSurfaceDescriptor_call (w h : Z)
| OnWindowUpdate_call (w h : Z).

(** Modelled from the spec: [media::MediaEngineWrapper] (its source is not
    among the sources) as the test double of the spec's section 8: it
    reports a fixed duration, native size and buffered ranges, and
    [GetMediaTime] returns the target of the last [SeekTo]. *)
Record Engine : Type := mkEngine {
  GetDuration : Z;
  NativeWidth : Z;
  NativeHeight : Z;
  GetBufferedRanges : list (Z * Z);
  GetMediaTime : Z
}.

Definition engine_step (c : EngineCall) (e : Engine) : Engine :=
  match c with
  | SeekTo_call t =>
      mkEngine (GetDuration e) (NativeWidth e) (NativeHeight e)
               (GetBufferedRanges e) t
  | _ => e
  end.

(** ** Events and the observable trace *)

(** The maps passed to [_eventSink->Success], by their "event" key. *)
Inductive Event : Type :=
| initialized (duration : Z) (width height : Z)
| completed
| bufferingStart
| bufferingEnd
| bufferingUpdate (values : list (Z * Z)).

Inductive Action : Type :=
| ACall (c : EngineCall)
| AEvent (ev : Event).

(** ** The object *)

(** Window rectangle as filled in by [GetWindowRect]. *)
Record RECT : Type := mkRECT {
  left : Z; top : Z; right : Z; bottom : Z
}.

Record VideoPlayer : Type := mkPlayer {
  isInitialized : bool;
  m_valid : bool;
  eventSink : bool;        (* _eventSink != nullptr *)
  eventChannel : bool;     (* _eventChannel != nullptr *)
  textureId : Z;           (* _textureId *)
  m_windowSize : Z * Z;    (* m_windowSize (Width, Height) *)
  engine : Engine;         (* *m_mediaEngineWrapper *)
  trace : list Action      (* engine calls and delivered events, in order *)
}.

Definition set_isInitialized (b : bool) (p : VideoPlayer) : VideoPlayer :=
  mkPlayer b (m_valid p) (eventSink p) (eventChannel p) (textureId p)
           (m_windowSize p) (engine p) (trace p).

Definition set_m_valid (b : bool) (p : VideoPlayer) : VideoPlayer :=
  mkPlayer (isInitialized p) b (eventSink p) (eventChannel p) (textureId p)
           (m_windowSize p) (engine p) (trace p).

Definition set_eventSink (b : bool) (p : VideoPlayer) : VideoPlayer :=
  mkPlayer (isInitialized p) (m_valid p) b (eventChannel p) (textureId p)
           (m_windowSize p) (engine p) (trace p).

Definition set_eventChannel (b : bool) (p : VideoPlayer) : VideoPlayer :=
  mkPlayer (isInitialized p) (m_valid p) (eventSink p) b (textureId p)
           (m_windowSize p) (engine p) (trace p).

Definition set_textureId (t : Z) (p : VideoPlayer) : VideoPlayer :=
  mkPlayer (isInitialized p) (m_valid p) (eventSink p) (eventChannel p) t
           (m_windowSize p) (engine p) (trace p).

Definition set_m_windowSize (ws : Z * Z) (p : VideoPlayer) : VideoPlayer :=
  mkPlayer (isInitialized p) (m_valid p) (eventSink p) (eventChannel p)
           (textureId p) ws (engine p) (trace p).

(** [m_mediaEngineWrapper->Op(...)]: the call is recorded and applied. *)
Definition call (c : EngineCall) (p : VideoPlayer) : VideoPlayer :=
  mkPlayer (isInitialized p) (m_valid p) (eventSink p) (eventChannel p)
           (textureId p) (m_windowSize p) (engine_step c (engine p))
           (trace p ++ [ACall c]).

(** [if (_eventSink) _eventSink->Success(ev);] *)
Definition emit (ev : Event) (p : VideoPlayer) : VideoPlayer :=
  if eventSink p then
    mkPlayer (isInitialized p) (m_valid p) (eventSink p) (eventChannel p)
             (textureId p) (m_windowSize p) (engine p)
             (trace p ++ [AEvent ev])
  else p.

(** Modelled from the spec: the member initialisers are in video_player.h,
    which is not among the sources; a fresh session is valid, not
    initialised, has no listener and a zero window size. *)
Definition new_player (e : Engine) : VideoPlayer :=
  mkPlayer false true false false 0 (0, 0) e [].

(** ** Member functions *)

(** [VideoPlayer::Init]: stores the texture id and creates the event
    channel whose handlers are [OnListen] and [OnCancel] below. *)
Definition Init (tid : Z) (p : VideoPlayer) : VideoPlayer :=
  set_eventChannel true (set_textureId tid p).

(** The listen handler: [this->_eventSink = std::move(events);]. *)
Definition OnListen (p : VideoPlayer) : VideoPlayer := set_eventSink true p.

(** The cancel handler: [this->_eventSink = nullptr;]. *)
Definition OnCancel (p : VideoPlayer) : VideoPlayer := set_eventSink false p.

(** The body of [VideoPlayer::~VideoPlayer], [m_valid = false;].  The
    destruction of the members that follows it, which ends the object's
    lifetime, is not modelled: the result is only meant for reading
    [m_valid], never for running further operations or callbacks. *)
Definition Destroy (p : VideoPlayer) : VideoPlayer := set_m_valid false p.

Definition IsValid (p : VideoPlayer) : bool := m_valid p.

Definition SendInitialized (p : VideoPlayer) : VideoPlayer :=
  if isInitialized p then
    let e := engine p in
    emit (initialized (int64 (GetDuration e)) (int32 (NativeWidth e))
                      (int32 (NativeHeight e))) p
  else p.

Definition OnMediaInitialized (p : VideoPlayer) : VideoPlayer :=
  let p := call (SeekTo_call 0) p in
  if negb (isInitialized p) then
    let p := set_isInitialized true p in
    SendInitialized p
  else p.

(** [VideoPlayer::OnMediaError] only logs. *)
Definition OnMediaError (error hr : Z) (p : VideoPlayer) : VideoPlayer := p.

Definition SetBuffering (buffering : bool) (p : VideoPlayer) : VideoPlayer :=
  emit (if buffering then bufferingStart else bufferingEnd) p.

(** The loop of [SendBufferingUpdate]: one [[start, end]] list per range. *)
Fixpoint push_ranges (ranges : list (Z * Z)) : list (Z * Z) :=
  match ranges with
  | [] => []
  | (start, end_) :: rest => (int64 start, int64 end_) :: push_ranges rest
  end.

Definition SendBufferingUpdate (p : VideoPlayer) : VideoPlayer :=
  let values := push_ranges (GetBufferedRanges (engine p)) in
  emit (bufferingUpdate values) p.

Definition OnMediaStateChange (bufferingState : BufferingState)
    (p : VideoPlayer) : VideoPlayer :=
  match bufferingState with
  | HAVE_NOTHING =>
      let p := SetBuffering true p in
      SendBufferingUpdate p
  | _ =>
      let p := if negb (isInitialized p) then
                 SendInitialized (set_isInitialized true p)
               else p in
      SetBuffering false p
  end.

Definition OnPlaybackEnded (p : VideoPlayer) : VideoPlayer :=
  emit completed p.

(** [VideoPlayer::UpdateVideoSize]; [rect] is the outcome of
    [GetWindowRect(m_window, &rect)] ([None] when it fails).  The float
    width and height hold integers and are compared and cast exactly. *)
Definition UpdateVideoSize (rect : option RECT) (p : VideoPlayer)
    : VideoPlayer :=
  let p := match rect with
           | Some r => set_m_windowSize (right r - left r, bottom r - top r) p
           | None => p
           end in
  let '(ww, wh) := m_windowSize p in
  let windowInitialized := negb (ww =? 0) && negb (wh =? 0) in
  let width := if windowInitialized then ww else 640 in
  let height := if windowInitialized then wh else 480 in
  call (OnWindowUpdate_call width height) p.

(** [VideoPlayer::ObtainDescriptorCallback]; the returned pointer is
    always [&m_descriptor], which the engine fills in. *)
Definition ObtainDescriptorCallback (width height : Z) (rect : option RECT)
    (p : VideoPlayer) : VideoPlayer :=
  let p := call (UpdateSurfaceDescriptor_call (uint32 width) (uint32 height)) p in
  UpdateVideoSize rect p.

Definition Dispose (p : VideoPlayer) : VideoPlayer :=
  let p := if isInitialized p then call Pause_call p else p in
  set_eventChannel false p.

Definition Play (p : VideoPlayer) : VideoPlayer :=
  call (StartPlayingFrom_call (GetMediaTime (engine p))) p.

Definition Pause (p : VideoPlayer) : VideoPlayer := call Pause_call p.

Definition SetLooping (b : bool) (p : VideoPlayer) : VideoPlayer :=
  call (SetLooping_call b) p.

Definition GetPosition (p : VideoPlayer) : Z := GetMediaTime (engine p).

Definition SeekTo (seek : Z) (p : VideoPlayer) : VideoPlayer :=
  call (SeekTo_call seek) p.

Definition GetTextureId (p : VideoPlayer) : Z := textureId p.

(** ** Runs *)

(** The four callbacks bound in the constructor. *)
Inductive Callback : Type :=
| onInitialized
| onError (error hr : Z)
| onBufferingStateChanged (st : BufferingState)
| onPlaybackEnded.

Definition dispatch (p : VideoPlayer) (cb : Callback) : VideoPlayer :=
  match cb with
  | onInitialized => OnMediaInitialized p
  | onError e hr => OnMediaError e hr p
  | onBufferingStateChanged st => OnMediaStateChange st p
  | onPlaybackEnded => OnPlaybackEnded p
  end.

(** Everything that can happen to a session. *)
Inductive Input : Type :=
| InCallback (cb : Callback)
| InListen
| InCancel
| InInit (tid : Z)
| InDispose
| InFrame (width height : Z) (rect : option RECT)
| InPlay
| InPause
| InSeekTo (t : Z)
| InSetLooping (b : bool).

Definition step (p : VideoPlayer) (i : Input) : VideoPlayer :=
  match i with
  | InCallback cb => dispatch p cb
  | InListen => OnListen p
  | InCancel => OnCancel p
  | InInit tid => Init tid p
  | InDispose => Dispose p
  | InFrame w h r => ObtainDescriptorCallback w h r p
  | InPlay => Play p
  | InPause => Pause p
  | InSeekTo t => SeekTo t p
  | InSetLooping b => SetLooping b p
  end.

Fixpoint run (p : VideoPlayer) (l : list Input) : VideoPlayer :=
  match l with
  | [] => p
  | i :: l => run (step p i) l
  end.

(** Counting the delivered [initialized] events of a trace. *)
Definition is_init_event (a : Action) : bool :=
  match a with
  | AEvent (initialized _ _ _) => true
  | _ => false
  end.

Definition count_init (l : list Action) : nat := length (filter is_init_event l).

(** The inputs that signal readiness: [onInitialized] and a buffering
    callback other than [HAVE_NOTHING]. *)
Definition ready_signal (i : Input) : bool :=
  match i with
  | InCallback onInitialized => true
  | InCallback (onBufferingStateChanged HAVE_NOTHING) => false
  | InCallback (onBufferingStateChanged _) => true
  | _ => false
  end.

(** A sample engine and an attached, initialised player for examples. *)
Definition eng0 : Engine := mkEngine 5000 1920 1080 [(0, 1000); (2000, 3000)] 0.

(** Inputs other than [Init] and other than attaching a listener. *)
Definition is_InInit (i : Input) : bool :=
  match i with InInit _ => true | _ => false end.

Definition is_InListen (i : Input) : bool :=
  match i with InListen => true | _ => false end.

(** An engine whose native width does not fit [int32_t]. *)
Definition eng_wide : Engine := mkEngine 5000 3000000000 1080 [] 0.

(** Both bounds of a buffered range fit [int64_t]. *)
Definition in_int64 (se : Z * Z) : Prop :=
  -2 ^ 63 <= fst se < 2 ^ 63 /\ -2 ^ 63 <= snd se < 2 ^ 63.

Example ex_scenario2 :
  trace (run (new_player eng0)
           [InInit 7; InListen; InCallback (onBufferingStateChanged HAVE_NOTHING);
            InCallback (onBufferingStateChanged HAVE_ENOUGH)])
  = [AEvent bufferingStart; AEvent (bufferingUpdate [(0, 1000); (2000, 3000)]);
     AEvent (initialized 5000 1920 1080); AEvent bufferingEnd].
Proof. reflexivity. Qed.

(** ** Effects of the individual operations *)

Lemma uint32_small (x : Z) : 0 <= x < 2 ^ 32 -> uint32 x = x.
Proof. intros H. unfold uint32. apply Z.mod_small. exact H. Qed.

Lemma uint32_mod (x : Z) : uint32 x = x mod 2 ^ 32.
Proof. reflexivity. Qed.

(** [(int32_t)] of a [uint32_t]: values from 2^31 on come out negative. *)
Lemma int32_of_uint32 (x : Z) :
  0 <= x < 2 ^ 32 -> int32 x = if x <? 2 ^ 31 then x else x - 2 ^ 32.
Proof.
  intros H. unfold int32. destruct (Z.ltb_spec x (2 ^ 31)).
  - rewrite Z.mod_small; lia.
  - replace (x + 2 ^ 31) with ((x + 2 ^ 31 - 2 ^ 32) + 1 * 2 ^ 32) by ring.
    rewrite Z.mod_add by lia. rewrite Z.mod_small; lia.
Qed.

Lemma int64_small (x : Z) : -2 ^ 63 <= x < 2 ^ 63 -> int64 x = x.
Proof. intros H. unfold int64. rewrite Z.mod_small; lia. Qed.

(** The casts are only ever evaluated on concrete inputs. *)
Opaque uint32 int32 int64.

Lemma count_init_app (l1 l2 : list Action) :
  count_init (l1 ++ l2) = (count_init l1 + count_init l2)%nat.
Proof. unfold count_init. rewrite filter_app, length_app. reflexivity. Qed.

Lemma UpdateVideoSize_effect (rect : option RECT) (p : VideoPlayer) :
  isInitialized (UpdateVideoSize rect p) = isInitialized p /\
  eventSink (UpdateVideoSize rect p) = eventSink p /\
  m_valid (UpdateVideoSize rect p) = m_valid p /\
  exists c, trace (UpdateVideoSize rect p) = trace p ++ [ACall c].
Proof.
  unfold UpdateVideoSize.
  destruct rect as [r|]; [|destruct (m_windowSize p) as [ww wh]]; simpl;
    (split; [reflexivity|split; [reflexivity|split; [reflexivity|]]]);
    eexists; reflexivity.
Qed.

Ltac unfold_ops :=
  unfold step, dispatch, OnMediaInitialized, OnMediaError, OnMediaStateChange,
    OnPlaybackEnded, SetBuffering, SendBufferingUpdate, SendInitialized, emit,
    OnListen, OnCancel, Init, Dispose, Play, Pause, SeekTo, SetLooping, call,
    set_isInitialized, set_eventSink, set_eventChannel, set_textureId in *.

(** Closes [trace' = trace ++ ?acts] by choosing the appended actions. *)
Ltac trace_ext :=
  first [ rewrite <- ?app_assoc; reflexivity | symmetry; apply app_nil_r ].

Lemma step_init_spec (p : VideoPlayer) (i : Input) :
  exists acts, trace (step p i) = trace p ++ acts /\
    (isInitialized p = true -> isInitialized (step p i) = true) /\
    (count_init acts <= (if isInitialized p then 0 else 1))%nat /\
    (count_init acts <> 0%nat ->
       ready_signal i = true /\ isInitialized p = false /\
       isInitialized (step p i) = true).
Proof.
  destruct i as [cb| | |tid| |w h r| | |t|b].
  { destruct cb as [|e hr|[|]|]; unfold_ops;
      destruct p as [ini va sk ch tid ws e0 tr];
      destruct ini, sk; simpl;
      eexists; (split; [trace_ext|]);
      unfold count_init; simpl; repeat split; intros; try lia; try discriminate;
      auto. }
  4: { unfold_ops. destruct (isInitialized p) eqn:Hi; simpl;
      eexists; (split; [trace_ext|]); unfold count_init; simpl;
      rewrite ?Hi; (split; [auto|]); (split; [lia|]); intros H; lia. }
  4: { unfold step, ObtainDescriptorCallback.
    destruct (UpdateVideoSize_effect r
      (call (UpdateSurfaceDescriptor_call (uint32 w) (uint32 h)) p))
      as [Hi [_ [_ [c Hc]]]].
    rewrite Hi, Hc. simpl.
    exists [ACall (UpdateSurfaceDescriptor_call (uint32 w) (uint32 h)); ACall c].
    rewrite <- app_assoc. unfold count_init. simpl.
    split; [reflexivity|]. split; [auto|].
    split; [destruct (isInitialized p); lia|]. intros H; lia. }
  all: unfold_ops; simpl; eexists; (split; [trace_ext|]);
      unfold count_init; simpl;
      (split; [auto|]); (split; [destruct (isInitialized p); lia|]);
      intros H; lia.
Qed.

Lemma run_app (p : VideoPlayer) (l1 l2 : list Input) :
  run p (l1 ++ l2) = run (run p l1) l2.
Proof. revert p; induction l1 as [|i l1 IH]; intros p; simpl; auto. Qed.

Lemma run_isInitialized_mono (p : VideoPlayer) (l : list Input) :
  isInitialized p = true -> isInitialized (run p l) = true.
Proof.
  revert p; induction l as [|i l IH]; intros p H; simpl; auto.
  apply IH. destruct (step_init_spec p i) as [acts [_ [Hm _]]]. auto.
Qed.

Lemma run_count_init (p : VideoPlayer) (l : list Input) :
  exists acts, trace (run p l) = trace p ++ acts /\
    (count_init acts <= (if isInitialized p then 0 else 1))%nat.
Proof.
  revert p; induction l as [|i l IH]; intros p; simpl.
  - exists []. rewrite app_nil_r. split; [reflexivity|].
    unfold count_init; destruct (isInitialized p); simpl; lia.
  - destruct (step_init_spec p i) as [a1 [H1 [Hm [Hc Hr]]]].
    destruct (IH (step p i)) as [a2 [H2 Hc2]].
    exists (a1 ++ a2). rewrite H2, H1, app_assoc. split; [reflexivity|].
    rewrite count_init_app.
    destruct (isInitialized p) eqn:Hp.
    + rewrite (Hm eq_refl) in Hc2. lia.
    + destruct (Nat.eq_dec (count_init a1) 0) as [E|E].
      * revert Hc2; destruct (isInitialized (step p i)); intros; lia.
      * destruct (Hr E) as [_ [_ Hs]]. rewrite Hs in Hc2. lia.
Qed.

(** C1: along any sequence of operations and engine callbacks the
    initialised flag never goes back from true to false (so it turns true
    at most once), at most one [initialized] event is delivered (none if
    the session starts initialised), and a step delivers one only when it
    is the step that turns the flag from false to true, and that step is an
    [onInitialized] callback or a buffering callback other than
    [HAVE_NOTHING]. *)
Theorem initialized_event_at_most_once (p : VideoPlayer) (l : list Input) :
  (forall l1 l2, l = l1 ++ l2 -> isInitialized (run p l1) = true ->
     isInitialized (run p l) = true) /\
  (exists acts, trace (run p l) = trace p ++ acts /\
     (count_init acts <= (if isInitialized p then 0 else 1))%nat) /\
  (forall l1 i l2 acts, l = l1 ++ i :: l2 ->
     trace (step (run p l1) i) = trace (run p l1) ++ acts ->
     count_init acts <> 0%nat ->
     ready_signal i = true /\ isInitialized (run p l1) = false /\
     isInitialized (step (run p l1) i) = true).
Proof.
  split; [|split].
  - intros l1 l2 -> H. rewrite run_app. apply run_isInitialized_mono; auto.
  - apply run_count_init.
  - intros l1 i l2 acts _ Ht Hc.
    destruct (step_init_spec (run p l1) i) as [a [Ha [_ [_ Hr]]]].
    rewrite Ha in Ht. apply app_inv_head in Ht. subst a.
    apply Hr; auto.
Qed.

Lemma app_self_nil {A : Type} (l a : list A) : l = l ++ a -> a = [].
Proof.
  intros H. apply (f_equal (@length A)) in H. rewrite length_app in H.
  destruct a; [reflexivity|]. simpl in H. lia.
Qed.

(** The geometry refresh changes the stored window size and appends the
    resize call, and nothing else. *)
Lemma UpdateVideoSize_spec (rect : option RECT) (p : VideoPlayer) :
  let ws := match rect with
            | Some r => (right r - left r, bottom r - top r)
            | None => m_windowSize p
            end in
  UpdateVideoSize rect p =
  mkPlayer (isInitialized p) (m_valid p) (eventSink p) (eventChannel p)
    (textureId p) ws (engine p)
    (trace p ++ [ACall (OnWindowUpdate_call
                   (if (fst ws =? 0) || (snd ws =? 0) then 640 else fst ws)
                   (if (fst ws =? 0) || (snd ws =? 0) then 480 else snd ws))]).
Proof.
  unfold UpdateVideoSize. cbv zeta.
  destruct rect as [r|]; simpl.
  - destruct (right r - left r =? 0), (bottom r - top r =? 0); reflexivity.
  - destruct p as [ini va sk ch tid [ww wh] e0 tr]; simpl.
    destruct (ww =? 0), (wh =? 0); reflexivity.
Qed.

(** C2 (amended): [Dispose] leaves the validity flag and the listener as
    they are, and no callback reads the validity flag: a callback that
    arrives after [Dispose] changes the initialised flag and appends the
    same engine calls and events as it would have without [Dispose]. *)
Theorem callbacks_after_dispose_unguarded (p : VideoPlayer) (cb : Callback) :
  m_valid (Dispose p) = m_valid p /\
  eventSink (Dispose p) = eventSink p /\
  isInitialized (dispatch (Dispose p) cb) = isInitialized (dispatch p cb) /\
  (exists acts, trace (dispatch p cb) = trace p ++ acts /\
     trace (dispatch (Dispose p) cb) = trace (Dispose p) ++ acts).
Proof.
  destruct p as [[] va [] ch tid ws e0 tr];
    destruct cb as [|e hr|[|]|].
  all: cbn.
  all: split; [reflexivity|]; split; [reflexivity|]; split; [reflexivity|].
  all: eexists; split; trace_ext.
Qed.

(** C2 counterexample: after [Dispose] of an initialised session with a
    listener, [onPlaybackEnded] still delivers [completed] and
    [onInitialized] still seeks the engine. *)
Lemma callbacks_after_dispose_cex :
  let p := Dispose (run (new_player eng0)
                      [InInit 7; InListen; InCallback onInitialized]) in
  dispatch p onPlaybackEnded <> p /\
  trace (dispatch p onPlaybackEnded) = trace p ++ [AEvent completed] /\
  trace (dispatch p onInitialized) = trace p ++ [ACall (SeekTo_call 0)].
Proof.
  cbv zeta. split; [|split; vm_compute; reflexivity].
  intros H. apply (f_equal (fun q => length (trace q))) in H.
  vm_compute in H. discriminate.
Qed.

(** C3 counterexample: on a fresh session with a listener, a
    [HAVE_NOTHING] callback delivers [bufferingStart] (and
    [bufferingUpdate]) while the session is still not initialised. *)
Lemma buffering_before_init_cex :
  let p := run (new_player eng0) [InInit 7; InListen] in
  isInitialized p = false /\
  isInitialized (OnMediaStateChange HAVE_NOTHING p) = false /\
  trace (OnMediaStateChange HAVE_NOTHING p) =
    trace p ++ [AEvent bufferingStart;
                AEvent (bufferingUpdate [(0, 1000); (2000, 3000)])].
Proof. cbv zeta. split; [|split]; vm_compute; reflexivity. Qed.

(** C3 (amended): before initialisation a [HAVE_NOTHING] callback is
    handled as after it: it leaves the session uninitialised and delivers
    [bufferingStart] then [bufferingUpdate] to an attached listener; a
    callback with any other state first initialises the session,
    delivering [initialized], and only then delivers [bufferingEnd], so no
    [bufferingEnd] is delivered while the session is uninitialised. *)
Theorem buffering_before_init (p : VideoPlayer)
    (H : isInitialized p = false) :
  isInitialized (OnMediaStateChange HAVE_NOTHING p) = false /\
  trace (OnMediaStateChange HAVE_NOTHING p) =
    trace p ++ (if eventSink p then
                  [AEvent bufferingStart;
                   AEvent (bufferingUpdate
                             (push_ranges (GetBufferedRanges (engine p))))]
                else []) /\
  isInitialized (OnMediaStateChange HAVE_ENOUGH p) = true /\
  trace (OnMediaStateChange HAVE_ENOUGH p) =
    trace p ++ (if eventSink p then
                  [AEvent (initialized (int64 (GetDuration (engine p)))
                             (int32 (NativeWidth (engine p)))
                             (int32 (NativeHeight (engine p))));
                   AEvent bufferingEnd]
                else []).
Proof.
  destruct p as [ini va [] ch tid ws e0 tr]; cbn in H; subst ini; cbn.
  all: rewrite <- ?app_assoc, ?app_nil_r; auto.
Qed.

Lemma buffering_before_init_witness :
  isInitialized (run (new_player eng0) [InInit 7; InListen]) = false /\
  trace (OnMediaStateChange HAVE_ENOUGH
           (run (new_player eng0) [InInit 7; InListen])) =
    [AEvent (initialized 5000 1920 1080); AEvent bufferingEnd].
Proof.
  split; [reflexivity|].
  destruct (buffering_before_init (run (new_player eng0) [InInit 7; InListen])
              eq_refl) as [_ [_ [_ E]]].
  rewrite E. vm_compute. reflexivity.
Defined.

(** C4 counterexample: an initialised session with a listener that never
    saw [HAVE_NOTHING] (so was not buffering) gets a [bufferingEnd] for
    each of two consecutive [HAVE_ENOUGH] callbacks. *)
Lemma buffering_end_without_start_cex :
  let p := run (new_player eng0) [InInit 7; InListen; InCallback onInitialized] in
  isInitialized p = true /\
  trace (run p [InCallback (onBufferingStateChanged HAVE_ENOUGH);
                InCallback (onBufferingStateChanged HAVE_ENOUGH)]) =
    trace p ++ [AEvent bufferingEnd; AEvent bufferingEnd].
Proof. cbv zeta. split; vm_compute; reflexivity. Qed.

(** C4 (amended): after initialisation, every [HAVE_NOTHING] callback
    delivers exactly one [bufferingStart] (followed by one
    [bufferingUpdate]) and every other buffering callback delivers exactly
    one [bufferingEnd], whether or not the session was buffering: no
    buffering flag is kept.  Nothing is delivered without a listener and
    the session stays initialised. *)
Theorem buffering_after_init (p : VideoPlayer)
    (H : isInitialized p = true) :
  isInitialized (OnMediaStateChange HAVE_NOTHING p) = true /\
  trace (OnMediaStateChange HAVE_NOTHING p) =
    trace p ++ (if eventSink p then
                  [AEvent bufferingStart;
                   AEvent (bufferingUpdate
                             (push_ranges (GetBufferedRanges (engine p))))]
                else []) /\
  isInitialized (OnMediaStateChange HAVE_ENOUGH p) = true /\
  trace (OnMediaStateChange HAVE_ENOUGH p) =
    trace p ++ (if eventSink p then [AEvent bufferingEnd] else []).
Proof.
  destruct p as [ini va [] ch tid ws e0 tr]; cbn in H; subst ini; cbn.
  all: rewrite <- ?app_assoc, ?app_nil_r; auto.
Qed.

Lemma buffering_after_init_witness :
  isInitialized (run (new_player eng0) [InInit 7; InListen; InCallback onInitialized])
    = true /\
  trace (OnMediaStateChange HAVE_ENOUGH
           (run (new_player eng0) [InInit 7; InListen; InCallback onInitialized])) =
    [ACall (SeekTo_call 0); AEvent (initialized 5000 1920 1080);
     AEvent bufferingEnd].
Proof.
  split; [reflexivity|].
  destruct (buffering_after_init
              (run (new_player eng0) [InInit 7; InListen; InCallback onInitialized])
              eq_refl) as [_ [_ [_ E]]].
  rewrite E. vm_compute. reflexivity.
Defined.

(** C5: a frame request for [(w, h)] first asks the engine for a
    descriptor of exactly [(w, h)], then resizes the engine to the display
    size: the refreshed window size when both its sides are nonzero, and
    (640, 480) otherwise; in particular (640, 480) when the window
    rectangle cannot be read and no usable size is known yet. *)
Theorem frame_request_sizes (p : VideoPlayer) (w h : Z) (rect : option RECT)
    (Hw : 0 <= w < 2 ^ 32) (Hh : 0 <= h < 2 ^ 32) :
  let ws := match rect with
            | Some r => (right r - left r, bottom r - top r)
            | None => m_windowSize p
            end in
  trace (ObtainDescriptorCallback w h rect p) =
    trace p ++ [ACall (UpdateSurfaceDescriptor_call w h);
                ACall (OnWindowUpdate_call
                   (if (fst ws =? 0) || (snd ws =? 0) then 640 else fst ws)
                   (if (fst ws =? 0) || (snd ws =? 0) then 480 else snd ws))] /\
  (rect = None -> fst (m_windowSize p) = 0 \/ snd (m_windowSize p) = 0 ->
   trace (ObtainDescriptorCallback w h rect p) =
     trace p ++ [ACall (UpdateSurfaceDescriptor_call w h);
                 ACall (OnWindowUpdate_call 640 480)]).
Proof.
  cbv zeta. unfold ObtainDescriptorCallback.
  rewrite UpdateVideoSize_spec, (uint32_small w Hw), (uint32_small h Hh).
  cbn. rewrite <- app_assoc. split; [reflexivity|].
  intros -> [E|E]; rewrite E; cbn; [reflexivity|].
  destruct (fst (m_windowSize p) =? 0); reflexivity.
Qed.

Lemma frame_request_sizes_witness :
  (0 <= 1920 < 2 ^ 32 /\ 0 <= 1080 < 2 ^ 32) /\
  trace (ObtainDescriptorCallback 1920 1080 None (new_player eng0)) =
    [ACall (UpdateSurfaceDescriptor_call 1920 1080);
     ACall (OnWindowUpdate_call 640 480)].
Proof.
  split; [lia|].
  destruct (frame_request_sizes (new_player eng0) 1920 1080 None
              ltac:(lia) ltac:(lia)) as [_ E].
  apply E; [reflexivity|left; reflexivity].
Defined.

(** C6: [onInitialized] always first seeks the engine to 0 and leaves the
    session initialised; the [initialized] event follows the seek only if
    the session was not yet initialised (and a listener is attached), so a
    repeated call only repeats the seek. *)
Theorem on_initialized_seeks_first (p : VideoPlayer) :
  trace (OnMediaInitialized p) =
    trace p ++ ACall (SeekTo_call 0) ::
      (if isInitialized p || negb (eventSink p) then []
       else [AEvent (initialized (int64 (GetDuration (engine p)))
                       (int32 (NativeWidth (engine p)))
                       (int32 (NativeHeight (engine p))))]) /\
  isInitialized (OnMediaInitialized p) = true /\
  GetMediaTime (engine (OnMediaInitialized p)) = 0 /\
  (isInitialized p = true -> OnMediaInitialized p = SeekTo 0 p).
Proof.
  destruct p as [[] va [] ch tid ws e0 tr]; cbn.
  all: rewrite <- ?app_assoc; repeat split; auto; discriminate.
Qed.

(** Every [bufferingUpdate] a step delivers comes from a [HAVE_NOTHING]
    callback and carries the converted buffered ranges. *)
Lemma step_bufferingUpdate (p : VideoPlayer) (i : Input)
    (acts : list Action) (vs : list (Z * Z)) :
  trace (step p i) = trace p ++ acts ->
  In (AEvent (bufferingUpdate vs)) acts ->
  i = InCallback (onBufferingStateChanged HAVE_NOTHING) /\
  vs = push_ranges (GetBufferedRanges (engine p)).
Proof.
  destruct p as [ini va sk ch tid [ww wh] e0 tr];
    destruct i as [[|e hr|[|]|]| | |tid'| |w h [r|]| | |t|b];
    destruct ini, sk; cbn; intros Ht Hin; rewrite <- ?app_assoc in Ht.
  all: first [ apply app_inv_head in Ht | apply app_self_nil in Ht ];
    subst acts; simpl in Hin; intuition congruence.
Qed.

(** C7: the [values] of a [bufferingUpdate] hold one pair per buffered
    range of the engine, in the engine's order (each bound converted to
    [int64_t]); every [HAVE_NOTHING] callback delivers such an event right
    after [bufferingStart] to an attached listener, and no other input
    delivers one. *)
Theorem buffering_update_values (p : VideoPlayer) :
  trace (OnMediaStateChange HAVE_NOTHING p) =
    trace p ++ (if eventSink p then
                  [AEvent bufferingStart;
                   AEvent (bufferingUpdate
                             (push_ranges (GetBufferedRanges (engine p))))]
                else []) /\
  length (push_ranges (GetBufferedRanges (engine p))) =
    length (GetBufferedRanges (engine p)) /\
  (forall n s e, nth_error (GetBufferedRanges (engine p)) n = Some (s, e) ->
     nth_error (push_ranges (GetBufferedRanges (engine p))) n =
       Some (int64 s, int64 e)) /\
  (forall i acts vs, trace (step p i) = trace p ++ acts ->
     In (AEvent (bufferingUpdate vs)) acts ->
     i = InCallback (onBufferingStateChanged HAVE_NOTHING) /\
     vs = push_ranges (GetBufferedRanges (engine p))).
Proof.
  split; [|split; [|split]].
  - destruct p as [ini va [] ch tid ws e0 tr]; cbn;
      rewrite <- ?app_assoc, ?app_nil_r; reflexivity.
  - induction (GetBufferedRanges (engine p)) as [|[s e] rs IH]; cbn; auto.
  - induction (GetBufferedRanges (engine p)) as [|[s0 e0] rs IH];
      intros [|n] s e H; cbn in *; try discriminate.
    + congruence.
    + apply IH; exact H.
  - apply step_bufferingUpdate.
Qed.

(** C8: while the listener is detached every callback delivers nothing
    (only engine calls are appended), and after it is reattached the next
    [onPlaybackEnded] delivers exactly one [completed] event. *)
Theorem detached_listener_drops (p : VideoPlayer) (cb : Callback) :
  (exists acts, trace (dispatch (OnCancel p) cb) = trace p ++ acts /\
     forall ev, ~ In (AEvent ev) acts) /\
  trace (run p [InCancel; InCallback onPlaybackEnded; InListen;
                InCallback onPlaybackEnded]) = trace p ++ [AEvent completed].
Proof.
  destruct p as [ini va sk ch tid ws e0 tr];
    destruct cb as [|e hr|[|]|]; destruct ini; cbn.
  all: split; [eexists; split; [trace_ext|]|reflexivity].
  all: intros ev; simpl; intuition discriminate.
Qed.

(** C9 counterexample: a known window size (800, 600) is overwritten by a
    readable but degenerate rectangle of width 0, and the engine is then
    resized to (640, 480) rather than to the prior size. *)
Lemma degenerate_rect_overwrites_cex :
  let p := set_m_windowSize (800, 600) (new_player eng0) in
  let p' := UpdateVideoSize (Some (mkRECT 10 10 10 610)) p in
  m_windowSize p' = (0, 600) /\ m_windowSize p' <> m_windowSize p /\
  trace p' = [ACall (OnWindowUpdate_call 640 480)].
Proof.
  cbv zeta. split; [reflexivity|]. split; [cbn; congruence|reflexivity].
Qed.

(** C9 (amended): the geometry refresh of a frame request stores the
    rectangle's width and height whenever the rectangle can be read, even
    when a side is zero; only an unreadable rectangle keeps the prior
    size.  The engine is then resized to the stored size if both sides are
    nonzero and to (640, 480) otherwise, and no other session state
    changes. *)
Theorem window_refresh (p : VideoPlayer) (rect : option RECT) :
  let ws := match rect with
            | Some r => (right r - left r, bottom r - top r)
            | None => m_windowSize p
            end in
  let p' := UpdateVideoSize rect p in
  m_windowSize p' = ws /\
  isInitialized p' = isInitialized p /\ m_valid p' = m_valid p /\
  eventSink p' = eventSink p /\ eventChannel p' = eventChannel p /\
  textureId p' = textureId p /\ engine p' = engine p /\
  trace p' = trace p ++
    [ACall (OnWindowUpdate_call
              (if (fst ws =? 0) || (snd ws =? 0) then 640 else fst ws)
              (if (fst ws =? 0) || (snd ws =? 0) then 480 else snd ws))].
Proof.
  cbv zeta. rewrite UpdateVideoSize_spec. cbn.
  repeat split; reflexivity.
Qed.

(** C10: [SeekTo] and [GetPosition] pass straight through to the engine,
    so with the test double a position read right after [SeekTo t] is
    [t]. *)
Theorem seek_then_position (p : VideoPlayer) (t : Z) :
  GetPosition (SeekTo t p) = t.
Proof. reflexivity. Qed.

(** ** Further properties of the controller *)

(** [Play] resumes from the engine's current media time, so a [Play]
    right after [SeekTo t] starts playback from [t]. *)
Theorem play_after_seek (p : VideoPlayer) (t : Z) :
  trace (Play (SeekTo t p)) =
    trace p ++ [ACall (SeekTo_call t); ACall (StartPlayingFrom_call t)].
Proof. cbn. rewrite <- app_assoc. reflexivity. Qed.

(** [Dispose] pauses the engine only when the session is initialised and
    drops the event channel; it keeps the listener, the initialised flag
    and the validity flag.  A second [Dispose] pauses the engine again. *)
Theorem dispose_effect (p : VideoPlayer) :
  trace (Dispose p) =
    trace p ++ (if isInitialized p then [ACall Pause_call] else []) /\
  eventChannel (Dispose p) = false /\
  eventSink (Dispose p) = eventSink p /\
  isInitialized (Dispose p) = isInitialized p /\
  m_valid (Dispose p) = m_valid p /\
  trace (Dispose (Dispose p)) =
    trace p ++ (if isInitialized p then [ACall Pause_call; ACall Pause_call]
                else []).
Proof.
  destruct p as [[] va sk ch tid ws e0 tr]; cbn.
  all: rewrite <- ?app_assoc, ?app_nil_r; repeat split.
Qed.

(** Transport commands issued after [Dispose] are still forwarded to the
    engine, each as the same single engine call as before [Dispose]. *)
Theorem transport_after_dispose (p : VideoPlayer) (t : Z) (b : bool) :
  trace (Play (Dispose p)) = trace (Dispose p) ++
    [ACall (StartPlayingFrom_call (GetMediaTime (engine p)))] /\
  trace (Pause (Dispose p)) = trace (Dispose p) ++ [ACall Pause_call] /\
  trace (SeekTo t (Dispose p)) = trace (Dispose p) ++ [ACall (SeekTo_call t)] /\
  trace (SetLooping b (Dispose p)) =
    trace (Dispose p) ++ [ACall (SetLooping_call b)].
Proof.
  destruct p as [[] va sk ch tid ws e0 tr]; cbn; repeat split.
Qed.

Lemma step_m_valid (p : VideoPlayer) (i : Input) :
  m_valid (step p i) = m_valid p.
Proof.
  destruct p as [[] va [] ch tid [ww wh] e0 tr];
    destruct i as [[|e hr|[|]|]| | |tid'| |w h [r|]| | |t|b]; reflexivity.
Qed.

(** No operation or callback of the controller touches the validity flag:
    [IsValid] keeps its value along every run, and only destruction clears
    it. *)
Theorem is_valid_invariant (p : VideoPlayer) (l : list Input) :
  IsValid (run p l) = IsValid p /\ IsValid (Destroy (run p l)) = false.
Proof.
  unfold IsValid. split; [|reflexivity].
  revert p; induction l as [|i l IH]; intros p; cbn; auto.
  rewrite IH. apply step_m_valid.
Qed.

Lemma step_textureId (p : VideoPlayer) (i : Input) :
  is_InInit i = false -> textureId (step p i) = textureId p.
Proof.
  destruct p as [[] va [] ch tid [ww wh] e0 tr];
    destruct i as [[|e hr|[|]|]| | |tid'| |w h [r|]| | |t|b];
    cbn; intros H; congruence.
Qed.

(** [GetTextureId] returns the id given to the last [Init], whatever
    happens afterwards as long as [Init] is not called again. *)
Theorem texture_id_after_init (p : VideoPlayer) (tid : Z) (l : list Input)
    (H : forallb (fun i => negb (is_InInit i)) l = true) :
  GetTextureId (run (Init tid p) l) = tid.
Proof.
  unfold GetTextureId. change tid with (textureId (Init tid p)) at 2.
  generalize (Init tid p) as q. revert H.
  induction l as [|i l IH]; intros H q; cbn in *; auto.
  apply andb_prop in H as [Hi Hl].
  rewrite IH by exact Hl. apply step_textureId. destruct (is_InInit i); auto.
Qed.

Lemma texture_id_after_init_witness :
  forallb (fun i => negb (is_InInit i))
    [InListen; InCallback onInitialized; InDispose] = true /\
  GetTextureId (run (Init 42 (new_player eng0))
                  [InListen; InCallback onInitialized; InDispose]) = 42.
Proof.
  split; [reflexivity|]. apply texture_id_after_init. reflexivity.
Defined.

Lemma step_detached (p : VideoPlayer) (i : Input) :
  eventSink p = false -> is_InListen i = false ->
  eventSink (step p i) = false /\
  exists acts, trace (step p i) = trace p ++ acts /\
    forall ev, ~ In (AEvent ev) acts.
Proof.
  destruct p as [ini va sk ch tid [ww wh] e0 tr]; cbn; intros Hs; subst sk.
  destruct i as [[|e hr|[|]|]| | |tid'| |w h [r|]| | |t|b]; destruct ini;
    cbn; intros Hi; try discriminate.
  all: split; [reflexivity|]; eexists; split; [trace_ext|].
  all: intros ev; simpl; intuition discriminate.
Qed.

(** While no listener is attached and none attaches, no event at all is
    delivered along a run: every emission is dropped, none is queued, and
    only engine calls are appended to the trace. *)
Theorem detached_run_delivers_nothing (p : VideoPlayer) (l : list Input)
    (Hs : eventSink p = false)
    (Hl : forallb (fun i => negb (is_InListen i)) l = true) :
  exists acts, trace (run p l) = trace p ++ acts /\
    forall ev, ~ In (AEvent ev) acts.
Proof.
  revert p Hs. induction l as [|i l IH]; intros p Hs; cbn in *.
  - exists []. rewrite app_nil_r. split; [reflexivity|]. intros ev [].
  - apply andb_prop in Hl as [Hi Hl].
    destruct (step_detached p i Hs) as [Hs' [a1 [H1 N1]]].
    { destruct (is_InListen i); auto. }
    destruct (IH Hl (step p i) Hs') as [a2 [H2 N2]].
    exists (a1 ++ a2). rewrite H2, H1, app_assoc. split; [reflexivity|].
    intros ev Hin. apply in_app_or in Hin as [Hin|Hin]; [eapply N1|eapply N2]; eauto.
Qed.

Lemma detached_run_delivers_nothing_witness :
  eventSink (new_player eng0) = false /\
  forallb (fun i => negb (is_InListen i))
    [InInit 7; InCallback (onBufferingStateChanged HAVE_NOTHING);
     InCallback onInitialized; InCallback onPlaybackEnded] = true /\
  exists acts,
    trace (run (new_player eng0)
             [InInit 7; InCallback (onBufferingStateChanged HAVE_NOTHING);
              InCallback onInitialized; InCallback onPlaybackEnded]) =
      trace (new_player eng0) ++ acts /\
    forall ev, ~ In (AEvent ev) acts.
Proof.
  split; [reflexivity|]. split; [reflexivity|].
  apply detached_run_delivers_nothing; reflexivity.
Defined.

(** A frame request changes only the stored window size and appends two
    engine calls: a descriptor request for the requested sizes truncated
    to 32 bits, then a resize; it never delivers an event and never
    changes the initialised flag, the listener or the validity flag. *)
Theorem frame_request_effect (p : VideoPlayer) (w h : Z) (rect : option RECT) :
  let ws := match rect with
            | Some r => (right r - left r, bottom r - top r)
            | None => m_windowSize p
            end in
  exists dw dh,
    ObtainDescriptorCallback w h rect p =
    mkPlayer (isInitialized p) (m_valid p) (eventSink p) (eventChannel p)
      (textureId p) ws (engine p)
      (trace p ++ [ACall (UpdateSurfaceDescriptor_call (w mod 2 ^ 32) (h mod 2 ^ 32));
                   ACall (OnWindowUpdate_call dw dh)]).
Proof.
  cbv zeta. unfold ObtainDescriptorCallback.
  rewrite UpdateVideoSize_spec, !uint32_mod. cbn.
  do 2 eexists. rewrite <- app_assoc. reflexivity.
Qed.

(** Once a frame request has read a window of nonzero width and height,
    a later frame request whose window read fails resizes the engine to
    that same size again, not to the 640x480 default. *)
Theorem window_size_reused (p : VideoPlayer) (w h w' h' : Z) (r : RECT)
    (Ha : right r - left r <> 0) (Hb : bottom r - top r <> 0) :
  let p1 := ObtainDescriptorCallback w h (Some r) p in
  trace p1 = trace p ++
    [ACall (UpdateSurfaceDescriptor_call (uint32 w) (uint32 h));
     ACall (OnWindowUpdate_call (right r - left r) (bottom r - top r))] /\
  trace (ObtainDescriptorCallback w' h' None p1) = trace p1 ++
    [ACall (UpdateSurfaceDescriptor_call (uint32 w') (uint32 h'));
     ACall (OnWindowUpdate_call (right r - left r) (bottom r - top r))].
Proof.
  cbv zeta. unfold ObtainDescriptorCallback.
  rewrite !UpdateVideoSize_spec. cbn.
  apply Z.eqb_neq in Ha, Hb. rewrite Ha, Hb. cbn.
  rewrite <- !app_assoc. split; reflexivity.
Qed.

Lemma window_size_reused_witness :
  (800 - 0 <> 0 /\ 600 - 0 <> 0) /\
  trace (ObtainDescriptorCallback 1920 1080 None
           (ObtainDescriptorCallback 1920 1080 (Some (mkRECT 0 0 800 600))
              (new_player eng0))) =
    [ACall (UpdateSurfaceDescriptor_call 1920 1080);
     ACall (OnWindowUpdate_call 800 600);
     ACall (UpdateSurfaceDescriptor_call 1920 1080);
     ACall (OnWindowUpdate_call 800 600)].
Proof.
  split; [lia|].
  destruct (window_size_reused (new_player eng0) 1920 1080 1920 1080
              (mkRECT 0 0 800 600) ltac:(cbn; lia) ltac:(cbn; lia)) as [E1 E2].
  rewrite E2, E1. vm_compute. reflexivity.
Defined.

(** The [initialized] event reports the engine's duration unchanged when
    it fits [int64_t], and the native width and height (unsigned 32-bit)
    through [(int32_t)]: sizes from 2^31 on are reported negative. *)
Theorem initialized_payload (p : VideoPlayer)
    (Hi : isInitialized p = false) (Hs : eventSink p = true)
    (Hd : -2 ^ 63 <= GetDuration (engine p) < 2 ^ 63)
    (Hw : 0 <= NativeWidth (engine p) < 2 ^ 32)
    (Hh : 0 <= NativeHeight (engine p) < 2 ^ 32) :
  let w := NativeWidth (engine p) in
  let h := NativeHeight (engine p) in
  trace (OnMediaInitialized p) = trace p ++
    [ACall (SeekTo_call 0);
     AEvent (initialized (GetDuration (engine p))
               (if w <? 2 ^ 31 then w else w - 2 ^ 32)
               (if h <? 2 ^ 31 then h else h - 2 ^ 32))].
Proof.
  destruct p as [ini va sk ch tid ws [d nw nh br mt] tr]; cbn in *.
  subst ini sk. cbn.
  rewrite int64_small, !int32_of_uint32 by assumption.
  rewrite <- app_assoc. reflexivity.
Qed.

Lemma initialized_payload_witness :
  let p := OnListen (new_player eng_wide) in
  (isInitialized p = false /\ eventSink p = true /\
   -2 ^ 63 <= GetDuration (engine p) < 2 ^ 63 /\
   0 <= NativeWidth (engine p) < 2 ^ 32 /\
   0 <= NativeHeight (engine p) < 2 ^ 32) /\
  trace (OnMediaInitialized p) =
    [ACall (SeekTo_call 0); AEvent (initialized 5000 (-1294967296) 1080)].
Proof.
  cbv zeta. split; [cbn; repeat split; try reflexivity; lia|].
  rewrite (initialized_payload (OnListen (new_player eng_wide)) eq_refl eq_refl)
    by (cbn; lia).
  vm_compute. reflexivity.
Defined.

(** When every bound of the engine's buffered ranges fits [int64_t], the
    [bufferingUpdate] of a [HAVE_NOTHING] callback carries exactly the
    engine's ranges. *)
Theorem buffering_update_exact (p : VideoPlayer)
    (Hs : eventSink p = true)
    (H : Forall in_int64 (GetBufferedRanges (engine p))) :
  trace (OnMediaStateChange HAVE_NOTHING p) = trace p ++
    [AEvent bufferingStart; AEvent (bufferingUpdate (GetBufferedRanges (engine p)))].
Proof.
  assert (E : push_ranges (GetBufferedRanges (engine p)) =
              GetBufferedRanges (engine p)).
  { induction H as [|[s0 e0] rs [Hs0 He0] _ IH]; cbn in *; auto.
    rewrite IH, int64_small, int64_small by assumption. reflexivity. }
  destruct p as [ini va sk ch tid ws e tr]; cbn in *; subst sk; cbn.
  rewrite E, <- app_assoc. reflexivity.
Qed.

Lemma buffering_update_exact_witness :
  let p := OnListen (new_player eng0) in
  (eventSink p = true /\ Forall in_int64 (GetBufferedRanges (engine p))) /\
  trace (OnMediaStateChange HAVE_NOTHING p) =
    [AEvent bufferingStart; AEvent (bufferingUpdate [(0, 1000); (2000, 3000)])].
Proof.
  cbv zeta.
  assert (HF : Forall in_int64 (GetBufferedRanges (engine (OnListen (new_player eng0))))).
  { cbn. repeat constructor; cbn; lia. }
  split; [split; [reflexivity|exact HF]|].
  rewrite (buffering_update_exact (OnListen (new_player eng0)) eq_refl HF).
  reflexivity.
Defined.

(** An [initialized] event that is dropped because no listener is
    attached when the session becomes initialised is never sent later: no
    run from there on delivers an [initialized] event. *)
Theorem initialized_event_lost_when_detached (p : VideoPlayer) (l : list Input)
    (Hi : isInitialized p = false) (Hs : eventSink p = false) :
  let q := OnMediaInitialized p in
  isInitialized q = true /\ trace q = trace p ++ [ACall (SeekTo_call 0)] /\
  exists acts, trace (run q l) = trace q ++ acts /\ count_init acts = 0%nat.
Proof.
  cbv zeta.
  assert (Hq : isInitialized (OnMediaInitialized p) = true /\
               trace (OnMediaInitialized p) = trace p ++ [ACall (SeekTo_call 0)]).
  { destruct p as [ini va sk ch tid ws e tr]; cbn in *; subst ini sk.
    split; reflexivity. }
  destruct Hq as [Hq1 Hq2]. split; [exact Hq1|]. split; [exact Hq2|].
  destruct (run_count_init (OnMediaInitialized p) l) as [acts [Ht Hc]].
  rewrite Hq1 in Hc. exists acts. split; [exact Ht|lia].
Qed.

Lemma initialized_event_lost_when_detached_witness :
  (isInitialized (new_player eng0) = false /\ eventSink (new_player eng0) = false) /\
  isInitialized (OnMediaInitialized (new_player eng0)) = true.
Proof.
  split; [split; reflexivity|].
  apply (initialized_event_lost_when_detached (new_player eng0)
           [InListen; InCallback onInitialized] eq_refl eq_refl).
Defined.

End VideoPlayerWindows.
